(** * The [user] and [address] models: schema, managers and their queries

  The repository declares three Django models ([User] in
  [user/models.py], [Address] and [City] in [address/models.py]) and one
  custom manager, [STLUserManger].  The declarations are embedded as
  data (field declarations), the tables as lists of typed rows, and the
  ORM calls the declarations give rise to ([save], [delete], the
  many-to-many manager, query-set evaluation) as computations in a small
  state-and-exception monad over the database.

  The ORM API is the one the source is written against (Django 1.5:
  [AbstractBaseUser], [ForeignKey] without [on_delete], and
  [Manager.get_query_set] as the hook every manager method goes
  through).

  Strings are byte strings.  Python's integers are unbounded; an integer
  column of [User] holds a signed 64-bit value.  [max_length] is kept in
  the declarations; no write consults it, as no write validates a
  model. *)

From Stdlib Require Import ZArith List String Ascii Bool Lia Permutation.
Import ListNotations.
Local Open Scope Z_scope.

(** ** Field declarations ([django.db.models]) *)

Module models.

(** The models of the project, as targets of relations. *)
Inductive Model := user_User | address_Address | address_City.

Inductive FieldType :=
| CharField_t (max_length : nat)
| IntegerField_t
| DateTimeField_t
| ForeignKey_t (to : Model)
| ManyToManyField_t (to : Model).

Inductive Default := NOT_PROVIDED | default_int (z : Z) | default_now.

Record Field := {
  field_type : FieldType;
  choices : list (Z * string);
  default : Default;
  null : bool;
  blank : bool;
  related_name : option string }.

(** Keyword arguments of a field constructor. *)
Inductive kwarg :=
| choices_ (c : list (Z * string))
| default_ (z : Z)
| default_callable_now
| null_ (b : bool)
| blank_ (b : bool)
| related_name_ (s : string).

Definition set_kwarg (f : Field) (k : kwarg) : Field :=
  match k with
  | choices_ c =>
      Build_Field (field_type f) c (default f) (null f) (blank f)
                  (related_name f)
  | default_ z =>
      Build_Field (field_type f) (choices f) (default_int z) (null f)
                  (blank f) (related_name f)
  | default_callable_now =>
      Build_Field (field_type f) (choices f) default_now (null f)
                  (blank f) (related_name f)
  | null_ b =>
      Build_Field (field_type f) (choices f) (default f) b (blank f)
                  (related_name f)
  | blank_ b =>
      Build_Field (field_type f) (choices f) (default f) (null f) b
                  (related_name f)
  | related_name_ s =>
      Build_Field (field_type f) (choices f) (default f) (null f)
                  (blank f) (Some s)
  end.

(** A field with the framework's defaults: no choices, no default,
    [null=False], [blank=False]. *)
Definition declare (t : FieldType) (kw : list kwarg) : Field :=
  fold_left set_kwarg kw (Build_Field t [] NOT_PROVIDED false false None).

Definition CharField (max_length : nat) (kw : list kwarg) : Field :=
  declare (CharField_t max_length) kw.
Definition IntegerField (kw : list kwarg) : Field :=
  declare IntegerField_t kw.
Definition DateTimeField (kw : list kwarg) : Field :=
  declare DateTimeField_t kw.
Definition ForeignKey (to : Model) (kw : list kwarg) : Field :=
  declare (ForeignKey_t to) kw.
Definition ManyToManyField (to : Model) (kw : list kwarg) : Field :=
  declare (ManyToManyField_t to) kw.

(** [Field.get_default] for a column holding an integer or a timestamp:
    the declared default, the clock for a callable default, [None]
    otherwise. *)
Definition get_default (f : Field) (now : Z) : option Z :=
  match default f with
  | NOT_PROVIDED => None
  | default_int z => Some z
  | default_now => Some now
  end.

(** [Field.get_default] for a [CharField] without default: the empty
    string. *)
Definition get_default_str (f : Field) : string := EmptyString.

(** The keys of [choices]. *)
Definition choice_keys (f : Field) : list Z := map fst (choices f).

End models.

(** ** [user/models.py]: constants and the [User] columns *)

Definition MALE : Z := 1.
Definition FEMALE : Z := 2.
Definition NA : Z := 3.
Definition ALIEN : Z := 4.

Definition GENDER_OPTIONS : list (Z * string) :=
  [ (MALE, "Male"%string);
    (FEMALE, "Female"%string);
    (NA, "N/A"%string);
    (ALIEN, "Alien"%string) ].

(** The class body of [User(AbstractBaseUser)]: the two fields of
  [AbstractBaseUser] followed by the declared ones. *)
Module User_fields.
Import models.
Definition password := CharField 128 [].
Definition last_login := DateTimeField [default_callable_now].
Definition name := CharField 200 [].
Definition code_name := CharField 400 [].
Definition date := DateTimeField [].
Definition base_level := IntegerField [].
Definition power_level := IntegerField [].
Definition gender := IntegerField [choices_ GENDER_OPTIONS; default_ NA].
Definition update_count := IntegerField [].
End User_fields.

(** A row of the [User] table.  Every column is [NOT NULL]; timestamps
  are seconds on some clock. *)
Module User.
Record t := {
  id : Z;
  password : string;
  last_login : Z;
  name : string;
  code_name : string;
  date : Z;
  base_level : Z;
  power_level : Z;
  gender : Z;
  update_count : Z }.
End User.

(** An in-memory [User] instance: [pk] is [None] until saved, and an
  attribute without default that was not given is [None]. *)
Module UserObj.
Record t := {
  pk : option Z;
  password : string;
  last_login : option Z;
  name : string;
  code_name : string;
  date : option Z;
  base_level : option Z;
  power_level : option Z;
  gender : option Z;
  update_count : option Z }.

(** Keyword arguments of [User(...)]; [None] is an omitted argument. *)
Record kwargs := {
  kw_pk : option Z;
  kw_password : option string;
  kw_last_login : option Z;
  kw_name : option string;
  kw_code_name : option string;
  kw_date : option Z;
  kw_base_level : option Z;
  kw_power_level : option Z;
  kw_gender : option Z;
  kw_update_count : option Z }.

Definition int_arg (f : models.Field) (now : Z) (v : option Z) : option Z :=
  match v with
  | Some z => Some z
  | None => models.get_default f now
  end.

Definition str_arg (f : models.Field) (v : option string) : string :=
  match v with
  | Some s => s
  | None => models.get_default_str f
  end.

(** [Model.__init__]: an omitted argument takes the field's default. *)
Definition init (now : Z) (kw : kwargs) : t :=
  {| pk := kw_pk kw;
     password := str_arg User_fields.password (kw_password kw);
     last_login := int_arg User_fields.last_login now (kw_last_login kw);
     name := str_arg User_fields.name (kw_name kw);
     code_name := str_arg User_fields.code_name (kw_code_name kw);
     date := int_arg User_fields.date now (kw_date kw);
     base_level := int_arg User_fields.base_level now (kw_base_level kw);
     power_level := int_arg User_fields.power_level now (kw_power_level kw);
     gender := int_arg User_fields.gender now (kw_gender kw);
     update_count := int_arg User_fields.update_count now (kw_update_count kw) |}.

(** The row an instance is written as, under primary key [k]; [None]
    when a [NOT NULL] column would receive [None]. *)
Definition to_row (k : Z) (o : t) : option User.t :=
  match last_login o, date o, base_level o, power_level o, gender o,
        update_count o with
  | Some ll, Some d, Some bl, Some pl, Some g, Some uc =>
      Some (User.Build_t k (password o) ll (name o) (code_name o) d bl pl g uc)
  | _, _, _, _, _, _ => None
  end.
End UserObj.

(** ** [address/models.py]: the [Address] and [City] columns *)

Module Address_fields.
Import models.
Definition street := CharField 200 [].
Definition user := ForeignKey user_User [].
Definition gangsta_users :=
  ManyToManyField user_User
    [null_ true; blank_ true; related_name_ "gangstas"%string].
End Address_fields.

Module City_fields.
Import models.
Definition address := ForeignKey address_Address [].
Definition name := CharField 300 [].
End City_fields.

(** A row of the [Address] table; [user_id] is the column of the [user]
  foreign key.  [gangsta_users] has no column: it is the join table
  below. *)
Module Address.
Record t := { id : Z; street : string; user_id : Z }.
End Address.

Module AddressObj.
Record t := { pk : option Z; street : string; user_id : option Z }.
End AddressObj.

Module City.
Record t := { id : Z; address_id : Z; name : string }.
End City.

Module CityObj.
Record t := { pk : option Z; address_id : option Z; name : string }.
End CityObj.

(** ** The database *)

(** The four tables the schema generates.  A row of the join table of
  [Address.gangsta_users] is the pair [(address_id, user_id)]; its
  surrogate key is left out. *)
Record DB := {
  users : list User.t;
  addresses : list Address.t;
  cities : list City.t;
  gangsta_users : list (Z * Z) }.

Definition empty_db : DB := Build_DB [] [] [] [].

(** ** The ORM monad: database state and exceptions *)

Inductive Exception := IntegrityError | AssertionError | OverflowError.

Inductive result (A : Type) :=
| Ok (a : A)
| Raise (e : Exception).
Arguments Ok {A} a.
Arguments Raise {A} e.

Definition ORM (A : Type) : Type := DB -> result A * DB.

Definition ret {A} (a : A) : ORM A := fun db => (Ok a, db).
Definition bind {A B} (m : ORM A) (k : A -> ORM B) : ORM B :=
  fun db =>
    match m db with
    | (Ok a, db') => k a db'
    | (Raise e, db') => (Raise e, db')
    end.

Declare Scope orm_scope.
Delimit Scope orm_scope with orm.
Notation "x <- m ;; k" := (bind m (fun x => k))
  (at level 61, m at next level, right associativity) : orm_scope.

(** The state an ORM call leaves behind. *)
Definition after {A} (m : ORM A) (db : DB) : DB := snd (m db).

(** ** The storage layer: keys and constraints *)

(** The key a row inserted without one receives: past every key of the
    table. *)
Definition next_id (ids : list Z) : Z := 1 + fold_right Z.max 0 ids.

Definition has_pk {A} (id : A -> Z) (k : Z) (rows : list A) : bool :=
  existsb (fun r => id r =? k) rows.

(** [UPDATE ... WHERE id = k]: the row with the key of [r] becomes [r]. *)
Definition update_row {A} (id : A -> Z) (r : A) (rows : list A) : list A :=
  map (fun x => if id x =? id r then r else x) rows.

(** [Model.save]: an [UPDATE] when a row with the key exists, an
    [INSERT] otherwise. *)
Definition save_row {A} (id : A -> Z) (r : A) (rows : list A) : list A :=
  if has_pk id (id r) rows then update_row id r rows else rows ++ [r].

Definition delete_where {A} (p : A -> bool) (rows : list A) : list A :=
  filter (fun r => negb (p r)) rows.

Definition pk_exists (m : models.Model) (k : Z) (db : DB) : bool :=
  match m with
  | models.user_User => has_pk User.id k (users db)
  | models.address_Address => has_pk Address.id k (addresses db)
  | models.address_City => has_pk City.id k (cities db)
  end.

(** Modelled from the spec: the write path of the external storage layer,
    which "supplies referential-integrity enforcement" (section 6) so that
    a row "referencing a non-existent parent must fail at write time with
    a referential-integrity error" (section 4.2).  The column of a
    [ForeignKey] declared without [null=True] is [NOT NULL REFERENCES
    to(id)]: the value written must be the key of a row of [to]. *)
Definition fk_column (f : models.Field) (v : option Z) (db : DB) : option Z :=
  match v, models.field_type f with
  | Some k, models.ForeignKey_t to =>
      if pk_exists to k db then Some k else None
  | _, _ => None
  end.

Definition new_pk (pk : option Z) (ids : list Z) : Z :=
  match pk with
  | Some k => k
  | None => next_id ids
  end.

(** The values an integer column holds: signed, 64 bits. *)
Definition column_min : Z := - 2 ^ 63.
Definition column_max : Z := 2 ^ 63 - 1.

Definition in_column (z : Z) : bool :=
  (column_min <=? z) && (z <=? column_max).

Definition int_ok (v : option Z) : bool :=
  match v with
  | Some z => in_column z
  | None => true
  end.

(** The key and the integer attributes of a [User] instance all fit
    their columns. *)
Definition User_ints_ok (o : UserObj.t) : bool :=
  int_ok (UserObj.pk o) && int_ok (UserObj.base_level o) &&
  int_ok (UserObj.power_level o) && int_ok (UserObj.gender o) &&
  int_ok (UserObj.update_count o).

(** ** Writes *)

(** [user.save(force_insert=...)]: returns the row written.  An integer
    that does not fit its column raises [OverflowError] before anything
    is written; [None] for a [NOT NULL] column raises [IntegrityError];
    with [force_insert] the row is inserted and the key of an existing
    row raises [IntegrityError]; without it the row with that key, if
    any, is updated. *)
Definition User_save_base (force_insert : bool) (o : UserObj.t)
  : ORM User.t := fun db =>
  if negb (User_ints_ok o) then (Raise OverflowError, db)
  else
    match
      UserObj.to_row (new_pk (UserObj.pk o) (map User.id (users db))) o
    with
    | None => (Raise IntegrityError, db)
    | Some row =>
        if force_insert && has_pk User.id (User.id row) (users db)
        then (Raise IntegrityError, db)
        else
          (Ok row,
           Build_DB (save_row User.id row (users db)) (addresses db)
                    (cities db) (gangsta_users db))
    end.

(** [user.save()]. *)
Definition User_save (o : UserObj.t) : ORM User.t := User_save_base false o.

(** [User.objects.create] with keyword arguments [kw]: the instance is
    built from them, then saved with [force_insert=True]. *)
Definition User_create (now : Z) (kw : UserObj.kwargs) : ORM User.t :=
  User_save_base true (UserObj.init now kw).

(** [address.save()]. *)
Definition Address_save (o : AddressObj.t) : ORM Address.t := fun db =>
  match fk_column Address_fields.user (AddressObj.user_id o) db with
  | None => (Raise IntegrityError, db)
  | Some uid =>
      let row :=
        Address.Build_t
          (new_pk (AddressObj.pk o) (map Address.id (addresses db)))
          (AddressObj.street o) uid in
      (Ok row,
       Build_DB (users db) (save_row Address.id row (addresses db)) (cities db)
                (gangsta_users db))
  end.

(** [city.save()]. *)
Definition City_save (o : CityObj.t) : ORM City.t := fun db =>
  match fk_column City_fields.address (CityObj.address_id o) db with
  | None => (Raise IntegrityError, db)
  | Some aid =>
      let row :=
        City.Build_t (new_pk (CityObj.pk o) (map City.id (cities db))) aid
                     (CityObj.name o) in
      (Ok row,
       Build_DB (users db) (addresses db) (save_row City.id row (cities db))
                (gangsta_users db))
  end.

(** [instance.delete()].  The instance must have a key.  Both foreign
    keys are declared without [on_delete], so the rows that reference a
    deleted row go with it, and so do the rows of the join table. *)
Definition City_delete (pk : option Z) : ORM unit := fun db =>
  match pk with
  | None => (Raise AssertionError, db)
  | Some k =>
      (Ok tt,
       Build_DB (users db) (addresses db)
                (delete_where (fun c => City.id c =? k) (cities db))
                (gangsta_users db))
  end.

Definition Address_delete (pk : option Z) : ORM unit := fun db =>
  match pk with
  | None => (Raise AssertionError, db)
  | Some k =>
      (Ok tt,
       Build_DB (users db)
                (delete_where (fun a => Address.id a =? k) (addresses db))
                (delete_where (fun c => City.address_id c =? k) (cities db))
                (delete_where (fun r => fst r =? k) (gangsta_users db)))
  end.

Definition User_delete (pk : option Z) : ORM unit := fun db =>
  match pk with
  | None => (Raise AssertionError, db)
  | Some k =>
      let owned := filter (fun a => Address.user_id a =? k) (addresses db) in
      let gone a := has_pk Address.id a owned in
      (Ok tt,
       Build_DB (delete_where (fun u => User.id u =? k) (users db))
                (delete_where (fun a => Address.user_id a =? k) (addresses db))
                (delete_where (fun c => gone (City.address_id c)) (cities db))
                (delete_where (fun r => gone (fst r) || (snd r =? k))
                              (gangsta_users db)))
  end.

(** ** The many-to-many manager [address.gangsta_users] *)

(** [address.gangsta_users.add(user)], for the address key [a] and the
    user key [u]: nothing when the pair is there already, else one row of
    the join table.  The two rows are not looked up. *)
Definition gangsta_users_add (a u : Z) : ORM unit := fun db =>
  if existsb (fun r => (fst r =? a) && (snd r =? u)) (gangsta_users db)
  then (Ok tt, db)
  else (Ok tt,
        Build_DB (users db) (addresses db) (cities db)
                 (gangsta_users db ++ [(a, u)])).

(** [address.gangsta_users.remove(user)]. *)
Definition gangsta_users_remove (a u : Z) : ORM unit := fun db =>
  (Ok tt,
   Build_DB (users db) (addresses db) (cities db)
            (delete_where (fun r => (fst r =? a) && (snd r =? u))
                          (gangsta_users db))).

(** [address.gangsta_users.clear()]. *)
Definition gangsta_users_clear (a : Z) : ORM unit := fun db =>
  (Ok tt,
   Build_DB (users db) (addresses db) (cities db)
            (delete_where (fun r => fst r =? a) (gangsta_users db))).

(** ** Query sets and managers *)

(** A query set is a query waiting to be run: what it selects from a
    database.  The order of the rows is the storage layer's and no
    statement below depends on it. *)
Definition QuerySet (A : Type) : Type := DB -> list A.

(** Evaluating a query set (iterating it, [list(qs)]) runs a [SELECT]. *)
Definition evaluate {A} (qs : QuerySet A) : ORM (list A) :=
  fun db => (Ok (qs db), db).

(** [address.gangsta_users.all()]: the users joined to address [a]. *)
Definition gangsta_users_all (a : Z) : QuerySet User.t := fun db =>
  flat_map
    (fun r =>
       if fst r =? a
       then filter (fun u => User.id u =? snd r) (users db)
       else [])
    (gangsta_users db).

(** [user.gangstas.all()], the reverse accessor that [related_name]
    names: the addresses joined to user [u]. *)
Definition gangstas_all (u : Z) : QuerySet Address.t := fun db =>
  flat_map
    (fun r =>
       if snd r =? u
       then filter (fun a => Address.id a =? fst r) (addresses db)
       else [])
    (gangsta_users db).

(** The [iexact] lookup compares the two strings with their letters in
    upper case ([UPPER(col) = UPPER(value)]).  Strings are byte strings
    and the letters are the ASCII ones. *)
Definition upper_ascii (c : ascii) : ascii :=
  let n := nat_of_ascii c in
  if (Nat.leb 97 n && Nat.leb n 122)%bool then ascii_of_nat (n - 32) else c.

Fixpoint upper (s : string) : string :=
  match s with
  | EmptyString => EmptyString
  | String c s' => String (upper_ascii c) (upper s')
  end.

Definition iexact (col value : string) : bool :=
  String.eqb (upper col) (upper value).

(** [qs.filter(address__city__name__iexact=value)] on a query set of
    users: [address] is the reverse of [Address.user], [city] the reverse
    of [City.address], so the query joins [User] to [Address] to [City]
    and keeps one row per joined triple whose city name matches. *)
Definition filter_address__city__name__iexact
    (value : string) (qs : QuerySet User.t) : QuerySet User.t := fun db =>
  flat_map
    (fun u =>
       flat_map
         (fun a =>
            flat_map
              (fun c => if iexact (City.name c) value then [u] else [])
              (filter (fun c => City.address_id c =? Address.id a) (cities db)))
         (filter (fun a => Address.user_id a =? User.id u) (addresses db)))
    (qs db).

(** A manager of [User]: every query it hands out starts from
    [get_query_set]. *)
Record Manager := { get_query_set : QuerySet User.t }.

(** [Manager.all()]. *)
Definition all (m : Manager) : QuerySet User.t := get_query_set m.

(** [models.Manager()]: its query set selects the whole table. *)
Definition models_Manager : Manager :=
  {| get_query_set := fun db => users db |}.

(** [STLUserManger]: the query set of the base manager, filtered. *)
Definition STLUserManger : Manager :=
  {| get_query_set :=
       filter_address__city__name__iexact "stl"
         (get_query_set models_Manager) |}.

(** The two managers of [User], in the order the class declares them. *)
Definition objects : Manager := models_Manager.
Definition stl_objects : Manager := STLUserManger.

Definition User_managers : list (string * Manager) :=
  [ ("objects"%string, objects); ("stl_objects"%string, stl_objects) ].

(** The default manager of a model is the first one its class declares. *)
Definition _default_manager : Manager :=
  match User_managers with
  | (_, m) :: _ => m
  | [] => models_Manager
  end.

(** ** Client programs and reachable states *)

(** What application code can do with these models: any composition of
    the calls above. *)
Inductive program : forall A : Type, ORM A -> Prop :=
| p_ret : forall A (a : A), program A (ret a)
| p_bind : forall A B (m : ORM A) (k : A -> ORM B),
    program A m -> (forall a, program B (k a)) -> program B (bind m k)
| p_User_save : forall o, program _ (User_save o)
| p_User_create : forall now kw, program _ (User_create now kw)
| p_Address_save : forall o, program _ (Address_save o)
| p_City_save : forall o, program _ (City_save o)
| p_User_delete : forall pk, program _ (User_delete pk)
| p_Address_delete : forall pk, program _ (Address_delete pk)
| p_City_delete : forall pk, program _ (City_delete pk)
| p_gangsta_users_add : forall a u, program _ (gangsta_users_add a u)
| p_gangsta_users_remove : forall a u, program _ (gangsta_users_remove a u)
| p_gangsta_users_clear : forall a, program _ (gangsta_users_clear a)
| p_evaluate : forall A (qs : QuerySet A), program _ (evaluate qs).

(** The states a program reaches from the empty database. *)
Definition reachable (db : DB) : Prop :=
  exists (A : Type) (m : ORM A), program A m /\ after m empty_db = db.

(** Keys are unique in each table, the owner of every address and the
    address of every city exist, and no pair is twice in the join
    table. *)
Record consistent (db : DB) : Prop := {
  users_pk : NoDup (map User.id (users db));
  addresses_pk : NoDup (map Address.id (addresses db));
  cities_pk : NoDup (map City.id (cities db));
  address_user_fk : forall a, In a (addresses db) ->
    has_pk User.id (Address.user_id a) (users db) = true;
  city_address_fk : forall c, In c (cities db) ->
    has_pk Address.id (City.address_id c) (addresses db) = true;
  gangsta_users_unique : NoDup (gangsta_users db) }.

(** A reference resolves when it is the key of a row. *)
Definition resolves {A} (id : A -> Z) (ref : option Z) (rows : list A) : Prop :=
  exists k r, ref = Some k /\ In r rows /\ id r = k.

(** The user has an address with a city whose name matches "stl". *)
Definition has_stl_city (db : DB) (u : User.t) : Prop :=
  exists a c,
    In a (addresses db) /\ Address.user_id a = User.id u /\
    In c (cities db) /\ City.address_id c = Address.id a /\
    iexact (City.name c) "stl" = true.

(** The join paths from a user to a city named "stl": the pairs of an
    address of the user and a matching city of that address. *)
Definition stl_paths (db : DB) (u : User.t) : list (Address.t * City.t) :=
  flat_map
    (fun a =>
       map (pair a)
           (filter (fun c => iexact (City.name c) "stl")
              (filter (fun c => City.address_id c =? Address.id a) (cities db))))
    (filter (fun a => Address.user_id a =? User.id u) (addresses db)).

(** How many entries of a result are the user with key [k]. *)
Definition occurrences (k : Z) (l : list User.t) : nat :=
  List.length (filter (fun u => User.id u =? k) l).

(** Keyword arguments that give every column without a default. *)
Definition complete (kw : UserObj.kwargs) : bool :=
  match UserObj.kw_date kw, UserObj.kw_base_level kw,
        UserObj.kw_power_level kw, UserObj.kw_update_count kw with
  | Some _, Some _, Some _, Some _ => true
  | _, _, _, _ => false
  end.

(** ** Scenarios *)

Definition new_user (n : string) (g : option Z) : UserObj.kwargs :=
  {| UserObj.kw_pk := None;
     UserObj.kw_password := None;
     UserObj.kw_last_login := None;
     UserObj.kw_name := Some n;
     UserObj.kw_code_name := None;
     UserObj.kw_date := Some 0;
     UserObj.kw_base_level := Some 1;
     UserObj.kw_power_level := Some 2;
     UserObj.kw_gender := g;
     UserObj.kw_update_count := Some 0 |}.

Definition new_address (s : string) (u : User.t) : AddressObj.t :=
  {| AddressObj.pk := None;
     AddressObj.street := s;
     AddressObj.user_id := Some (User.id u) |}.

Definition new_city (n : string) (a : Address.t) : CityObj.t :=
  {| CityObj.pk := None;
     CityObj.address_id := Some (Address.id a);
     CityObj.name := n |}.

Local Open Scope orm_scope.

(** The end-to-end scenario: U1 with a city "STL", U2 with "Chicago". *)
Definition two_users : ORM (User.t * User.t) :=
  u1 <- User_create 0 (new_user "U1" None) ;;
  a1 <- Address_save (new_address "1 Main St" u1) ;;
  _ <- City_save (new_city "STL" a1) ;;
  u2 <- User_create 0 (new_user "U2" None) ;;
  a2 <- Address_save (new_address "2 Lake Ave" u2) ;;
  _ <- City_save (new_city "Chicago" a2) ;;
  ret (u1, u2).

(** Only U2 and "Chicago". *)
Definition chicago_only : ORM User.t :=
  u2 <- User_create 0 (new_user "U2" None) ;;
  a2 <- Address_save (new_address "2 Lake Ave" u2) ;;
  _ <- City_save (new_city "Chicago" a2) ;;
  ret u2.

(** One user with two addresses, each with a city matching "stl". *)
Definition two_addresses : ORM User.t :=
  u1 <- User_create 0 (new_user "U1" None) ;;
  a1 <- Address_save (new_address "1 Main St" u1) ;;
  _ <- City_save (new_city "STL" a1) ;;
  a2 <- Address_save (new_address "9 Elm St" u1) ;;
  _ <- City_save (new_city "Stl" a2) ;;
  ret u1.

(** One user with one address that has two cities matching "stl". *)
Definition two_cities : ORM User.t :=
  u1 <- User_create 0 (new_user "U1" None) ;;
  a1 <- Address_save (new_address "1 Main St" u1) ;;
  _ <- City_save (new_city "STL" a1) ;;
  _ <- City_save (new_city "stl" a1) ;;
  ret u1.

(** A user created with a gender that is none of the four codes. *)
Definition gender_seven : ORM User.t :=
  User_create 0 (new_user "U7" (Some 7)).

(** The two users, then U2 joins the gangsta users of the address of
    U1, whose city is "STL". *)
Definition gangsta_of_stl : ORM (User.t * User.t) :=
  us <- two_users ;;
  _ <- gangsta_users_add 1 (User.id (snd us)) ;;
  ret us.

Local Close Scope orm_scope.

(** Shows that a composition of calls is a program. *)
Ltac program_steps :=
  repeat match goal with
         | |- program _ (bind _ _) => apply p_bind
         | |- forall _, _ => intro
         | |- program _ _ => constructor
         end.

(** * Properties *)

(** ** Tables: keys, saving and deleting rows *)

Section Tables.
Context {A : Type} (id : A -> Z).

Lemma has_pk_true (k : Z) (rows : list A) :
  has_pk id k rows = true <-> exists r, In r rows /\ id r = k.
Proof.
  unfold has_pk. rewrite existsb_exists.
  split; intros [r [Hin Hk]]; exists r; split; auto.
  - now apply Z.eqb_eq.
  - now apply Z.eqb_eq.
Qed.

Lemma has_pk_false (k : Z) (rows : list A) :
  has_pk id k rows = false <-> ~ In k (map id rows).
Proof.
  rewrite <- not_true_iff_false, has_pk_true, in_map_iff.
  split; intros H [r Hr]; apply H; exists r; tauto.
Qed.

Lemma next_id_above (ids : list Z) (k : Z) : In k ids -> k < next_id ids.
Proof.
  unfold next_id. induction ids as [|x ids IH]; cbn [fold_right In]; [tauto|].
  intros [->|Hin]; [lia|]. specialize (IH Hin). lia.
Qed.

Lemma next_id_fresh (ids : list Z) : ~ In (next_id ids) ids.
Proof. intros H. apply next_id_above in H. lia. Qed.

Lemma update_row_ids (r : A) (rows : list A) :
  map id (update_row id r rows) = map id rows.
Proof.
  unfold update_row. rewrite map_map. apply map_ext_in. intros x _.
  destruct (id x =? id r) eqn:E; [|reflexivity].
  apply Z.eqb_eq in E. now symmetry.
Qed.

Lemma In_update_row (r x : A) (rows : list A) :
  In x (update_row id r rows) -> x = r \/ In x rows.
Proof.
  unfold update_row. rewrite in_map_iff. intros [y [Hy Hin]].
  destruct (id y =? id r); subst; auto.
Qed.

Lemma In_save_row (r x : A) (rows : list A) :
  In x (save_row id r rows) -> x = r \/ In x rows.
Proof.
  unfold save_row. destruct (has_pk id (id r) rows).
  - apply In_update_row.
  - rewrite in_app_iff. simpl. intuition.
Qed.

(** The row saved is in the table afterwards. *)
Lemma save_row_In (r : A) (rows : list A) : In r (save_row id r rows).
Proof.
  unfold save_row. destruct (has_pk id (id r) rows) eqn:E.
  - apply has_pk_true in E. destruct E as [y [Hin Hy]].
    unfold update_row. apply in_map_iff. exists y. split; [|assumption].
    apply Z.eqb_eq in Hy. now rewrite Hy.
  - apply in_or_app. right. now left.
Qed.

(** Saving keeps the keys of the table unique, whatever key the row has. *)
Lemma save_row_NoDup (r : A) (rows : list A) :
  NoDup (map id rows) -> NoDup (map id (save_row id r rows)).
Proof.
  intros H. unfold save_row. destruct (has_pk id (id r) rows) eqn:E.
  - now rewrite update_row_ids.
  - apply has_pk_false in E. rewrite map_app. simpl.
    apply NoDup_app; [assumption| |].
    + constructor; [intros []| constructor].
    + intros k Hk [<-|[]]. contradiction.
Qed.

(** Saving removes no key. *)
Lemma save_row_has_pk (r : A) (rows : list A) (k : Z) :
  has_pk id k rows = true -> has_pk id k (save_row id r rows) = true.
Proof.
  intros H. apply has_pk_true. apply has_pk_true in H.
  destruct H as [x [Hin Hk]]. unfold save_row.
  destruct (has_pk id (id r) rows).
  - exists (if id x =? id r then r else x). split.
    + unfold update_row. apply in_map_iff. now exists x.
    + destruct (id x =? id r) eqn:E; [|assumption].
      apply Z.eqb_eq in E. congruence.
  - exists x. split; [|assumption]. apply in_or_app. now left.
Qed.

Lemma In_delete_where (p : A -> bool) (x : A) (rows : list A) :
  In x (delete_where p rows) <-> In x rows /\ p x = false.
Proof.
  unfold delete_where. rewrite filter_In, negb_true_iff. reflexivity.
Qed.

Lemma NoDup_map_filter (p : A -> bool) (rows : list A) :
  NoDup (map id rows) -> NoDup (map id (filter p rows)).
Proof.
  induction rows as [|x rows IH]; simpl; intros H; [constructor|].
  inversion H as [|? ? Hnin Hnd]; subst.
  destruct (p x); simpl; auto.
  constructor; auto. intros Hin. apply Hnin.
  apply in_map_iff in Hin. destruct Hin as [y [Hy Hin]].
  apply filter_In in Hin. apply in_map_iff. exists y. tauto.
Qed.

(** A row that survives a delete keeps its key in the table. *)
Lemma delete_where_has_pk (p : A -> bool) (rows : list A) (k : Z) :
  (exists r, In r rows /\ id r = k /\ p r = false) ->
  has_pk id k (delete_where p rows) = true.
Proof.
  intros [r [Hin [Hk Hp]]]. apply has_pk_true. exists r.
  rewrite In_delete_where. auto.
Qed.

(** Rows with the same key in a table with unique keys are the same row. *)
Lemma unique_key (rows : list A) (x y : A) :
  NoDup (map id rows) -> In x rows -> In y rows -> id x = id y -> x = y.
Proof.
  induction rows as [|z rows IH]; simpl; [tauto|].
  intros H Hx Hy E. inversion H as [|? ? Hnin Hnd]; subst.
  destruct Hx as [->|Hx], Hy as [->|Hy]; auto.
  - exfalso. apply Hnin. rewrite E. now apply in_map.
  - exfalso. apply Hnin. rewrite <- E. now apply in_map.
Qed.

End Tables.

(** ** Foreign-key columns *)

Lemma fk_user_Some (v : option Z) (db : DB) (k : Z) :
  fk_column Address_fields.user v db = Some k ->
  v = Some k /\ has_pk User.id k (users db) = true.
Proof.
  unfold fk_column. destruct v as [k'|]; simpl; [|discriminate].
  destruct (has_pk User.id k' (users db)) eqn:E; [|discriminate].
  intros [= <-]. auto.
Qed.

Lemma fk_address_Some (v : option Z) (db : DB) (k : Z) :
  fk_column City_fields.address v db = Some k ->
  v = Some k /\ has_pk Address.id k (addresses db) = true.
Proof.
  unfold fk_column. destruct v as [k'|]; simpl; [|discriminate].
  destruct (has_pk Address.id k' (addresses db)) eqn:E; [|discriminate].
  intros [= <-]. auto.
Qed.

Lemma fk_user_None (v : option Z) (db : DB) :
  fk_column Address_fields.user v db = None <->
  ~ resolves User.id v (users db).
Proof.
  unfold fk_column, resolves. destruct v as [k|]; simpl.
  - destruct (has_pk User.id k (users db)) eqn:E.
    + apply has_pk_true in E. destruct E as [r [Hin Hk]].
      split; [discriminate|]. intros H. exfalso. apply H. now exists k, r.
    + split; [|reflexivity]. intros _ [k' [r [[= <-] [Hin Hk]]]].
      apply not_true_iff_false in E. apply E. apply has_pk_true. now exists r.
  - split; [|reflexivity]. intros _ [k [r [Hk _]]]. discriminate.
Qed.

Lemma fk_address_None (v : option Z) (db : DB) :
  fk_column City_fields.address v db = None <->
  ~ resolves Address.id v (addresses db).
Proof.
  unfold fk_column, resolves. destruct v as [k|]; simpl.
  - destruct (has_pk Address.id k (addresses db)) eqn:E.
    + apply has_pk_true in E. destruct E as [r [Hin Hk]].
      split; [discriminate|]. intros H. exfalso. apply H. now exists k, r.
    + split; [|reflexivity]. intros _ [k' [r [[= <-] [Hin Hk]]]].
      apply not_true_iff_false in E. apply E. apply has_pk_true. now exists r.
  - split; [|reflexivity]. intros _ [k [r [Hk _]]]. discriminate.
Qed.

(** ** Every call keeps the database consistent *)

Lemma consistent_empty : consistent empty_db.
Proof.
  constructor; simpl; try apply NoDup_nil; intros ? Hin; destruct Hin.
Qed.

Lemma User_save_base_consistent (f : bool) (o : UserObj.t) (db : DB) :
  consistent db -> consistent (after (User_save_base f o) db).
Proof.
  intros [Hu Ha Hc Hau Hca Hgu]. unfold after, User_save_base.
  destruct (negb (User_ints_ok o)); simpl; [now constructor|].
  destruct (UserObj.to_row _ o) as [row|]; simpl; [|now constructor].
  destruct (f && has_pk User.id (User.id row) (users db)); simpl;
    [now constructor|].
  constructor; simpl; auto.
  - now apply save_row_NoDup.
  - intros a Hin. apply save_row_has_pk. auto.
Qed.

Lemma User_save_consistent (o : UserObj.t) (db : DB) :
  consistent db -> consistent (after (User_save o) db).
Proof. apply User_save_base_consistent. Qed.

Lemma User_create_consistent (now : Z) (kw : UserObj.kwargs) (db : DB) :
  consistent db -> consistent (after (User_create now kw) db).
Proof. apply User_save_base_consistent. Qed.

Lemma Address_save_consistent (o : AddressObj.t) (db : DB) :
  consistent db -> consistent (after (Address_save o) db).
Proof.
  intros [Hu Ha Hc Hau Hca Hgu]. unfold after, Address_save.
  destruct (fk_column _ _ db) as [uid|] eqn:E; simpl; [|now constructor].
  apply fk_user_Some in E. destruct E as [_ E].
  constructor; simpl; auto.
  - now apply save_row_NoDup.
  - intros a Hin. apply In_save_row in Hin. destruct Hin as [->|Hin]; auto.
  - intros c Hin. apply save_row_has_pk. auto.
Qed.

Lemma City_save_consistent (o : CityObj.t) (db : DB) :
  consistent db -> consistent (after (City_save o) db).
Proof.
  intros [Hu Ha Hc Hau Hca Hgu]. unfold after, City_save.
  destruct (fk_column _ _ db) as [aid|] eqn:E; simpl; [|now constructor].
  apply fk_address_Some in E. destruct E as [_ E].
  constructor; simpl; auto.
  - now apply save_row_NoDup.
  - intros c Hin. apply In_save_row in Hin. destruct Hin as [->|Hin]; auto.
Qed.

Lemma City_delete_consistent (pk : option Z) (db : DB) :
  consistent db -> consistent (after (City_delete pk) db).
Proof.
  intros [Hu Ha Hc Hau Hca Hgu]. unfold after, City_delete.
  destruct pk as [k|]; simpl; [|now constructor].
  constructor; simpl; auto.
  - now apply NoDup_map_filter.
  - intros c Hin. apply In_delete_where in Hin. apply Hca. tauto.
Qed.

Lemma Address_delete_consistent (pk : option Z) (db : DB) :
  consistent db -> consistent (after (Address_delete pk) db).
Proof.
  intros [Hu Ha Hc Hau Hca Hgu]. unfold after, Address_delete.
  destruct pk as [k|]; simpl; [|now constructor].
  constructor; simpl; auto.
  - now apply NoDup_map_filter.
  - now apply NoDup_map_filter.
  - intros a Hin. apply In_delete_where in Hin. apply Hau. tauto.
  - intros c Hin. apply In_delete_where in Hin. destruct Hin as [Hin Hk].
    apply delete_where_has_pk. apply Hca, has_pk_true in Hin.
    destruct Hin as [a [Hin Ha']]. exists a. repeat split; auto.
    now rewrite Ha'.
  - now apply NoDup_filter.
Qed.

Lemma User_delete_consistent (pk : option Z) (db : DB) :
  consistent db -> consistent (after (User_delete pk) db).
Proof.
  intros [Hu Ha Hc Hau Hca Hgu]. unfold after, User_delete.
  destruct pk as [k|]; simpl; [|now constructor].
  assert (Hkeep : forall j,
    has_pk Address.id j (addresses db) = true ->
    has_pk Address.id j
      (filter (fun a => Address.user_id a =? k) (addresses db)) = false ->
    has_pk Address.id j
      (delete_where (fun a => Address.user_id a =? k) (addresses db)) = true).
  { intros j H1 H2. apply delete_where_has_pk. apply has_pk_true in H1.
    destruct H1 as [a [Hin Ha']]. exists a. repeat split; auto.
    destruct (Address.user_id a =? k) eqn:E; [|reflexivity].
    apply not_true_iff_false in H2. exfalso. apply H2.
    apply has_pk_true. exists a. split; [|assumption].
    apply filter_In. auto. }
  constructor; simpl; auto.
  - now apply NoDup_map_filter.
  - now apply NoDup_map_filter.
  - now apply NoDup_map_filter.
  - intros a Hin. apply In_delete_where in Hin. destruct Hin as [Hin Hk].
    apply delete_where_has_pk. apply Hau, has_pk_true in Hin.
    destruct Hin as [u [Hin Hu']]. exists u. repeat split; auto.
    now rewrite Hu'.
  - intros c Hin. apply In_delete_where in Hin. destruct Hin as [Hin Hk].
    apply Hkeep; auto.
  - now apply NoDup_filter.
Qed.

Lemma gangsta_users_add_consistent (a u : Z) (db : DB) :
  consistent db -> consistent (after (gangsta_users_add a u) db).
Proof.
  intros [Hu Ha Hc Hau Hca Hgu]. unfold after, gangsta_users_add.
  destruct (existsb _ (gangsta_users db)) eqn:Ex; simpl; [now constructor|].
  constructor; simpl; auto.
  apply NoDup_app; [assumption| |].
  - constructor; [intros []|constructor].
  - intros r Hin [<-|[]]. apply not_true_iff_false in Ex. apply Ex.
    apply existsb_exists. exists (a, u). simpl.
    now rewrite !Z.eqb_refl.
Qed.

Lemma gangsta_users_remove_consistent (a u : Z) (db : DB) :
  consistent db -> consistent (after (gangsta_users_remove a u) db).
Proof.
  intros [Hu Ha Hc Hau Hca Hgu]. unfold after, gangsta_users_remove.
  constructor; simpl; auto. now apply NoDup_filter.
Qed.

Lemma gangsta_users_clear_consistent (a : Z) (db : DB) :
  consistent db -> consistent (after (gangsta_users_clear a) db).
Proof.
  intros [Hu Ha Hc Hau Hca Hgu]. unfold after, gangsta_users_clear.
  constructor; simpl; auto. now apply NoDup_filter.
Qed.

(** Every program keeps the database consistent. *)
Lemma program_consistent (A : Type) (m : ORM A) :
  program A m -> forall db, consistent db -> consistent (after m db).
Proof.
  induction 1 as [A a|A B m k Hm IHm Hk IHk| | | | | | | | | | |A qs];
    intros db Hdb; auto using
      User_save_consistent, User_create_consistent, Address_save_consistent,
      City_save_consistent, User_delete_consistent,
      Address_delete_consistent, City_delete_consistent,
      gangsta_users_add_consistent, gangsta_users_remove_consistent,
      gangsta_users_clear_consistent.
  specialize (IHm db Hdb). unfold after, bind in *.
  destruct (m db) as [[a|e] db']; simpl in *; [|assumption].
  now apply IHk.
Qed.

Lemma reachable_consistent (db : DB) : reachable db -> consistent db.
Proof.
  intros [A [m [Hm <-]]]. apply program_consistent; [assumption|].
  apply consistent_empty.
Qed.

(** ** The [iexact] lookup *)

Lemma upper_ascii_S (c : ascii) :
  upper_ascii c = "S"%char -> c = "s"%char \/ c = "S"%char.
Proof.
  destruct c as [[] [] [] [] [] [] [] []]; vm_compute; intros H;
    try discriminate H; auto.
Qed.

Lemma upper_ascii_T (c : ascii) :
  upper_ascii c = "T"%char -> c = "t"%char \/ c = "T"%char.
Proof.
  destruct c as [[] [] [] [] [] [] [] []]; vm_compute; intros H;
    try discriminate H; auto.
Qed.

Lemma upper_ascii_L (c : ascii) :
  upper_ascii c = "L"%char -> c = "l"%char \/ c = "L"%char.
Proof.
  destruct c as [[] [] [] [] [] [] [] []]; vm_compute; intros H;
    try discriminate H; auto.
Qed.

(** The names that match "stl": the eight spellings of its three
    letters in either case, and nothing else. *)
Lemma iexact_stl (s : string) :
  iexact s "stl" = true <->
  In s ["stl"; "stL"; "sTl"; "sTL"; "Stl"; "StL"; "STl"; "STL"]%string.
Proof.
  split.
  - unfold iexact. intros H. apply String.eqb_eq in H.
    destruct s as [|c1 [|c2 [|c3 [|c4 s]]]]; try discriminate H.
    simpl in H. injection H as H1 H2 H3.
    apply upper_ascii_S in H1. apply upper_ascii_T in H2.
    apply upper_ascii_L in H3.
    destruct H1 as [-> | ->], H2 as [-> | ->], H3 as [-> | ->];
      simpl; tauto.
  - intros H. simpl in H.
    repeat (destruct H as [<-|H]; [reflexivity|]). destruct H.
Qed.

(** ** Membership in the filtered query set *)

Lemma In_filter_address__city__name__iexact
    (v : string) (qs : QuerySet User.t) (db : DB) (u : User.t) :
  In u (filter_address__city__name__iexact v qs db) <->
  In u (qs db) /\
  exists a c,
    In a (addresses db) /\ Address.user_id a = User.id u /\
    In c (cities db) /\ City.address_id c = Address.id a /\
    iexact (City.name c) v = true.
Proof.
  unfold filter_address__city__name__iexact. rewrite in_flat_map. split.
  - intros [u0 [Hu0 H]]. apply in_flat_map in H. destruct H as [a [Ha H]].
    apply in_flat_map in H. destruct H as [c [Hc H]].
    apply filter_In in Ha. destruct Ha as [Ha Hau].
    apply filter_In in Hc. destruct Hc as [Hc Hca].
    apply Z.eqb_eq in Hau. apply Z.eqb_eq in Hca.
    destruct (iexact (City.name c) v) eqn:E; [|destruct H].
    destruct H as [<-|[]]. split; [assumption|]. now exists a, c.
  - intros [Hu [a [c [Ha [Hau [Hc [Hca E]]]]]]]. exists u. split; [assumption|].
    apply in_flat_map. exists a. split.
    { apply filter_In. split; [assumption|]. now apply Z.eqb_eq. }
    apply in_flat_map. exists c. split.
    { apply filter_In. split; [assumption|]. now apply Z.eqb_eq. }
    rewrite E. now left.
Qed.

(** C1: evaluating [stl_objects] succeeds, and its result holds a user
    exactly when the user is in the table and has an address with a city
    whose name equals "stl" up to the case of its letters: "STL", "Stl"
    and "stl" match, "St. Louis" does not, and the matching names are the
    eight spellings of "stl". *)
Theorem stl_objects_selects_stl_users :
  (forall db, exists l,
      evaluate (all stl_objects) db = (Ok l, db) /\
      forall u, In u l <-> In u (users db) /\ has_stl_city db u) /\
  iexact "STL" "stl" = true /\
  iexact "Stl" "stl" = true /\
  iexact "stl" "stl" = true /\
  iexact "St. Louis" "stl" = false /\
  (forall s, iexact s "stl" = true <->
     In s ["stl"; "stL"; "sTl"; "sTL"; "Stl"; "StL"; "STl"; "STL"]%string).
Proof.
  split; [|repeat split; try reflexivity; apply iexact_stl].
  intros db. exists (all stl_objects db). split; [reflexivity|].
  intros u. unfold all, stl_objects, STLUserManger, has_stl_city. simpl.
  apply In_filter_address__city__name__iexact.
Qed.

(** The end-to-end scenario: U1, whose city is "STL", is in the result
    of [stl_objects], and U2, whose city is "Chicago", is not. *)
Lemma stl_objects_two_users :
  exists u1 u2 db,
    two_users empty_db = (Ok (u1, u2), db) /\
    evaluate (all stl_objects) db = (Ok [u1], db) /\
    User.name u1 = "U1"%string /\ User.name u2 = "U2"%string.
Proof. do 3 eexists. repeat split. Qed.

(** ** The default manager *)

(** C9: [objects], the first manager declared and so the default one,
    is a plain manager: evaluating it succeeds with the whole [User]
    table, unfiltered, whatever the [Address], [City] and join tables
    hold. *)
Theorem objects_returns_every_user :
  get_query_set _default_manager = get_query_set objects /\
  (forall db, evaluate (all objects) db = (Ok (users db), db)) /\
  (forall us as1 cs1 gs1 as2 cs2 gs2,
      all objects (Build_DB us as1 cs1 gs1)
      = all objects (Build_DB us as2 cs2 gs2)).
Proof. repeat split. Qed.

(** ** Queries are read-only *)

(** C7: evaluating [stl_objects] leaves the database as it was: the
    users, the addresses, the cities and the join table. *)
Theorem stl_objects_is_read_only :
  forall db,
    after (evaluate (all stl_objects)) db = db /\
    users (after (evaluate (all stl_objects)) db) = users db /\
    addresses (after (evaluate (all stl_objects)) db) = addresses db /\
    cities (after (evaluate (all stl_objects)) db) = cities db.
Proof. intros db. repeat split. Qed.

(** C4: when no user has an address with a city matching "stl",
    evaluating [stl_objects] returns the empty list, not an exception,
    and the database is unchanged. *)
Theorem stl_objects_empty_without_match :
  forall db,
    (forall u, In u (users db) -> ~ has_stl_city db u) ->
    evaluate (all stl_objects) db = (Ok [], db).
Proof.
  intros db H. unfold evaluate. f_equal. f_equal.
  destruct (all stl_objects db) as [|u l] eqn:E; [reflexivity|].
  assert (Hin : In u (all stl_objects db)) by (rewrite E; now left).
  apply In_filter_address__city__name__iexact in Hin.
  destruct Hin as [Hu Hc]. exfalso. now apply (H u).
Qed.

(** With only U2 and "Chicago" in the database, [stl_objects] is empty. *)
Lemma stl_objects_empty_without_match_chicago :
  evaluate (all stl_objects) (after chicago_only empty_db)
  = (Ok [], after chicago_only empty_db).
Proof.
  apply (stl_objects_empty_without_match (after chicago_only empty_db)).
  intros u _ [a [c [_ [_ [Hc [_ E]]]]]].
  simpl in Hc. destruct Hc as [<-|[]]. vm_compute in E. discriminate E.
Defined.

(** ** Gender *)

Lemma has_pk_next_id {A} (id : A -> Z) (rows : list A) :
  has_pk id (next_id (map id rows)) rows = false.
Proof. apply has_pk_false, next_id_fresh. Qed.

Lemma to_row_id (k : Z) (o : UserObj.t) (r : User.t) :
  UserObj.to_row k o = Some r -> User.id r = k.
Proof.
  unfold UserObj.to_row.
  destruct (UserObj.last_login o), (UserObj.date o), (UserObj.base_level o),
    (UserObj.power_level o), (UserObj.gender o), (UserObj.update_count o);
    try discriminate 1.
  now intros [= <-].
Qed.

(** The row of an instance built from complete keyword arguments: the
    gender is the one given, or [NA]; the strings are those given, or
    empty. *)
Lemma to_row_init (k now : Z) (kw : UserObj.kwargs) :
  complete kw = true ->
  exists row,
    UserObj.to_row k (UserObj.init now kw) = Some row /\
    User.gender row =
      match UserObj.kw_gender kw with Some g => g | None => NA end /\
    User.name row =
      match UserObj.kw_name kw with Some s => s | None => EmptyString end /\
    User.code_name row =
      match UserObj.kw_code_name kw with
      | Some s => s
      | None => EmptyString
      end.
Proof.
  destruct kw as [pk pw ll n cn [d|] [bl|] [pl|] g [uc|]];
    try discriminate 1. intros _.
  unfold UserObj.init, UserObj.to_row. simpl.
  destruct ll, g, n, cn; simpl; eexists; repeat split.
Qed.

Lemma to_row_init_incomplete (k now : Z) (kw : UserObj.kwargs) :
  complete kw = false -> UserObj.to_row k (UserObj.init now kw) = None.
Proof.
  destruct kw as [pk pw ll n cn d bl pl g uc].
  unfold UserObj.init, UserObj.to_row, complete. simpl.
  destruct d, bl, pl, uc, ll, g; simpl; try reflexivity; discriminate 1.
Qed.

(** [create] without a key succeeds when every column without default
    is given and every integer fits its column; it stores the row. *)
Lemma User_create_complete (now : Z) (kw : UserObj.kwargs) (db : DB) :
  UserObj.kw_pk kw = None -> complete kw = true ->
  User_ints_ok (UserObj.init now kw) = true ->
  exists u db',
    User_create now kw db = (Ok u, db') /\ In u (users db') /\
    User.gender u =
      match UserObj.kw_gender kw with Some g => g | None => NA end /\
    User.name u =
      match UserObj.kw_name kw with Some s => s | None => EmptyString end /\
    User.code_name u =
      match UserObj.kw_code_name kw with
      | Some s => s
      | None => EmptyString
      end.
Proof.
  intros Hpk Hc Hok.
  destruct (to_row_init (next_id (map User.id (users db))) now kw Hc)
    as [row [E H]].
  unfold User_create, User_save_base. rewrite Hok. cbn [negb].
  change (UserObj.pk (UserObj.init now kw)) with (UserObj.kw_pk kw).
  rewrite Hpk. cbn [new_pk]. rewrite E.
  rewrite (to_row_id _ _ _ E), has_pk_next_id. cbn [andb].
  exists row. eexists. split; [reflexivity|]. simpl.
  split; [apply save_row_In|exact H].
Qed.

(** A successful [save] has written the gender of the instance,
    unchanged and unchecked against the choices. *)
Lemma User_save_gender (f : bool) (o : UserObj.t) (db db' : DB) (u : User.t) :
  User_save_base f o db = (Ok u, db') ->
  UserObj.gender o = Some (User.gender u) /\ In u (users db').
Proof.
  unfold User_save_base. destruct (negb (User_ints_ok o)); [discriminate|].
  destruct (UserObj.to_row _ o) as [row|] eqn:E; [|discriminate].
  destruct (f && has_pk User.id (User.id row) (users db)); [discriminate|].
  intros [= <- <-]. simpl. split; [|apply save_row_In].
  unfold UserObj.to_row in E.
  destruct (UserObj.last_login o), (UserObj.date o), (UserObj.base_level o),
    (UserObj.power_level o), (UserObj.gender o), (UserObj.update_count o);
    try discriminate E.
  now injection E as <-.
Qed.

(** C10: the gender field is an integer field whose codes are 1 (Male),
    2 (Female), 3 (N/A) and 4 (Alien) and whose default is the integer 3;
    a user created (no key given, every column without default given,
    every integer within its column) is stored with the integer given as
    gender, so Male, Female, N/A and Alien are stored as 1, 2, 3 and 4,
    and with the integer 3 when no gender is given. *)
Theorem gender_is_stored_as_integer_code :
  MALE = 1 /\ FEMALE = 2 /\ NA = 3 /\ ALIEN = 4 /\
  models.field_type User_fields.gender = models.IntegerField_t /\
  models.choices User_fields.gender =
    [(1, "Male"); (2, "Female"); (3, "N/A"); (4, "Alien")]%string /\
  models.default User_fields.gender = models.default_int 3 /\
  (forall now kw db,
      UserObj.kw_pk kw = None -> complete kw = true ->
      User_ints_ok (UserObj.init now kw) = true ->
      exists u db',
        User_create now kw db = (Ok u, db') /\ In u (users db') /\
        User.gender u =
          match UserObj.kw_gender kw with Some g => g | None => 3 end).
Proof.
  repeat split. intros now kw db Hpk Hc Hok.
  destruct (User_create_complete now kw db Hpk Hc Hok)
    as [u [db' [H1 [H2 [H3 _]]]]].
  now exists u, db'.
Qed.

(** Created in the empty database with gender Male, Female, Alien and
    without gender, U1 is stored with gender 1, 2, 4 and 3. *)
Lemma gender_is_stored_as_integer_code_U1 :
  (exists u db',
      User_create 0 (new_user "U1" (Some MALE)) empty_db = (Ok u, db') /\
      In u (users db') /\ User.gender u = 1) /\
  (exists u db',
      User_create 0 (new_user "U1" (Some FEMALE)) empty_db = (Ok u, db') /\
      In u (users db') /\ User.gender u = 2) /\
  (exists u db',
      User_create 0 (new_user "U1" (Some ALIEN)) empty_db = (Ok u, db') /\
      In u (users db') /\ User.gender u = 4) /\
  (exists u db',
      User_create 0 (new_user "U1" None) empty_db = (Ok u, db') /\
      In u (users db') /\ User.gender u = 3).
Proof.
  repeat split;
    apply (proj2 (proj2 (proj2 (proj2 (proj2 (proj2 (proj2
             gender_is_stored_as_integer_code))))))); reflexivity.
Defined.

(** C2, as the code has it: a user created with no key given, every
    column without default given and every integer within its column is
    stored with the gender given, or with N/A when none is given; so the
    stored gender is one of the four codes whenever the gender given is
    one of them or is omitted. *)
Theorem gender_stored_as_given_or_default :
  forall now kw db,
    UserObj.kw_pk kw = None -> complete kw = true ->
    User_ints_ok (UserObj.init now kw) = true ->
    exists u db',
      User_create now kw db = (Ok u, db') /\ In u (users db') /\
      User.gender u =
        match UserObj.kw_gender kw with Some g => g | None => NA end /\
      (match UserObj.kw_gender kw with
       | Some g => In g (models.choice_keys User_fields.gender)
       | None => True
       end -> In (User.gender u) (models.choice_keys User_fields.gender)).
Proof.
  intros now kw db Hpk Hc Hok.
  destruct (User_create_complete now kw db Hpk Hc Hok)
    as [u [db' [H1 [H2 [H3 _]]]]].
  exists u, db'. repeat split; auto.
  rewrite H3. destruct (UserObj.kw_gender kw); [tauto|].
  intros _. simpl. tauto.
Qed.

(** U1 created with gender Alien is stored with gender 4. *)
Lemma gender_stored_as_given_alien :
  exists u db',
    User_create 0 (new_user "U1" (Some ALIEN)) empty_db = (Ok u, db') /\
    In u (users db') /\ User.gender u = ALIEN /\
    In (User.gender u) (models.choice_keys User_fields.gender).
Proof.
  destruct (gender_stored_as_given_or_default
              0 (new_user "U1" (Some ALIEN)) empty_db eq_refl eq_refl eq_refl)
    as [u [db' [H1 [H2 [H3 H4]]]]].
  exists u, db'. repeat split; auto. apply H4. simpl. tauto.
Defined.

(** A user created with gender 7 is persisted with gender 7, which is
    none of the four codes: not every persisted user has one of them. *)
Lemma gender_seven_is_persisted :
  exists u db,
    gender_seven empty_db = (Ok u, db) /\ reachable db /\
    In u (users db) /\ User.gender u = 7 /\
    ~ In (User.gender u) [MALE; FEMALE; NA; ALIEN].
Proof.
  eexists. eexists. split; [reflexivity|]. split.
  { exists User.t, gender_seven. split; [apply p_User_create|reflexivity]. }
  split; [now left|]. split; [reflexivity|]. simpl.
  unfold MALE, FEMALE, NA, ALIEN. intros [H|[H|[H|[H|[]]]]]; discriminate H.
Qed.

(** ** Referential integrity *)

(** C3: saving an address whose user reference resolves to no user, or a
    city whose address reference resolves to no address, raises
    [IntegrityError] and leaves the database as it was: the row is not
    stored. *)
Theorem dangling_reference_raises_IntegrityError :
  (forall db o,
      ~ resolves User.id (AddressObj.user_id o) (users db) ->
      Address_save o db = (Raise IntegrityError, db)) /\
  (forall db o,
      ~ resolves Address.id (CityObj.address_id o) (addresses db) ->
      City_save o db = (Raise IntegrityError, db)).
Proof.
  split; intros db o H.
  - apply fk_user_None in H. unfold Address_save. now rewrite H.
  - apply fk_address_None in H. unfold City_save. now rewrite H.
Qed.

(** In the database of the two users, an address for user 5 and a city
    for address 5 are both refused. *)
Lemma dangling_reference_refused_after_two_users :
  let db := after two_users empty_db in
  Address_save (AddressObj.Build_t None "5 Oak St" (Some 5)) db
  = (Raise IntegrityError, db) /\
  City_save (CityObj.Build_t None (Some 5) "STL") db
  = (Raise IntegrityError, db).
Proof.
  split.
  - apply (proj1 dangling_reference_raises_IntegrityError).
    apply fk_user_None. reflexivity.
  - apply (proj2 dangling_reference_raises_IntegrityError).
    apply fk_address_None. reflexivity.
Defined.

(** A save whose reference resolves succeeds and stores the row. *)
Lemma Address_save_resolved (o : AddressObj.t) (db : DB) :
  resolves User.id (AddressObj.user_id o) (users db) ->
  exists a db',
    Address_save o db = (Ok a, db') /\ In a (addresses db') /\
    AddressObj.user_id o = Some (Address.user_id a).
Proof.
  intros H. unfold Address_save.
  destruct (fk_column _ _ db) as [uid|] eqn:E.
  - apply fk_user_Some in E. destruct E as [E _].
    eexists. eexists. split; [reflexivity|]. simpl. split; [|assumption].
    apply save_row_In.
  - apply fk_user_None in E. contradiction.
Qed.

(** C5: [Address.user] is a foreign key to [User] that is not nullable;
    an address without owner cannot be saved; and in every reachable
    database each address has exactly one user as its owner. *)
Theorem address_has_exactly_one_owner :
  models.field_type Address_fields.user
  = models.ForeignKey_t models.user_User /\
  models.null Address_fields.user = false /\
  (forall db o,
      AddressObj.user_id o = None ->
      Address_save o db = (Raise IntegrityError, db)) /\
  (forall db a,
      reachable db -> In a (addresses db) ->
      exists! u, In u (users db) /\ User.id u = Address.user_id a).
Proof.
  split; [reflexivity|]. split; [reflexivity|]. split.
  - intros db o H. unfold Address_save, fk_column. now rewrite H.
  - intros db a Hr Hin. apply reachable_consistent in Hr.
    destruct Hr as [Hu _ _ Hau _ _].
    apply Hau, has_pk_true in Hin. destruct Hin as [u [Hin Hk]].
    exists u. split; [now split|].
    intros u' [Hin' Hk']. apply (unique_key User.id (users db)); auto.
    congruence.
Qed.

(** ** The scenarios are programs *)

Lemma two_users_reachable : reachable (after two_users empty_db).
Proof.
  exists (User.t * User.t)%type, two_users. split; [|reflexivity].
  unfold two_users. program_steps.
Qed.

Lemma two_addresses_reachable : reachable (after two_addresses empty_db).
Proof.
  exists User.t, two_addresses. split; [|reflexivity].
  unfold two_addresses. program_steps.
Qed.

Lemma two_cities_reachable : reachable (after two_cities empty_db).
Proof.
  exists User.t, two_cities. split; [|reflexivity].
  unfold two_cities. program_steps.
Qed.

(** After the two users are created, the address with key 1 has exactly
    one owner. *)
Lemma address_owner_after_two_users :
  exists! u,
    In u (users (after two_users empty_db)) /\
    User.id u = Address.user_id (Address.Build_t 1 "1 Main St" 1).
Proof.
  apply (proj2 (proj2 (proj2 address_has_exactly_one_owner))).
  - exact two_users_reachable.
  - simpl. now left.
Defined.

(** ** The many-to-many relation *)

Lemma flat_map_nil {A B} (f : A -> list B) (l : list A) :
  (forall x, In x l -> f x = []) -> flat_map f l = [].
Proof.
  induction l as [|x l IH]; simpl; intros H; [reflexivity|].
  rewrite (H x) by now left. apply IH. intros y Hy. apply H. now right.
Qed.

Lemma gangsta_users_all_clear (a : Z) (db : DB) :
  gangsta_users_all a (after (gangsta_users_clear a) db) = [].
Proof.
  unfold gangsta_users_all, after, gangsta_users_clear. simpl.
  apply flat_map_nil. intros r Hin. apply In_delete_where in Hin.
  destruct Hin as [_ H]. now rewrite H.
Qed.

(** C6: adding a member to [gangsta_users], removing one or clearing the
    set leaves the [Address] table, and so the owner of every address, as
    it was; and the set may be empty: it is after [clear], and there is a
    reachable database with an address that has no gangsta user. *)
Theorem gangsta_users_leaves_owner :
  (forall db a u,
      addresses (after (gangsta_users_add a u) db) = addresses db /\
      addresses (after (gangsta_users_remove a u) db) = addresses db /\
      addresses (after (gangsta_users_clear a) db) = addresses db) /\
  (forall db a,
      gangsta_users_all a (after (gangsta_users_clear a) db) = []) /\
  (exists db a,
      reachable db /\ In a (addresses db) /\
      gangsta_users_all (Address.id a) db = []).
Proof.
  split; [|split].
  - intros db a u. repeat split.
    unfold after, gangsta_users_add.
    destruct (existsb _ (gangsta_users db)); reflexivity.
  - intros db a. apply gangsta_users_all_clear.
  - exists (after two_users empty_db), (Address.Build_t 1 "1 Main St" 1).
    split; [exact two_users_reachable|]. split; [simpl; now left|].
    reflexivity.
Qed.

(** After the two users are created, U2 joins the gangsta users of the
    address of U1 and leaves again: the address is owned by U1
    throughout. *)
Lemma gangsta_users_leaves_owner_two_users :
  let db := after two_users empty_db in
  let db1 := after (gangsta_users_add 1 2) db in
  let db2 := after (gangsta_users_remove 1 2) db1 in
  gangsta_users_all 1 db = [] /\
  map User.name (gangsta_users_all 1 db1) = ["U2"%string] /\
  gangsta_users_all 1 db2 = [] /\
  addresses db1 = addresses db /\ addresses db2 = addresses db /\
  map Address.user_id (addresses db2) = [1; 2].
Proof.
  split; [reflexivity|]. split; [reflexivity|]. split; [reflexivity|].
  split.
  - exact (proj1 (proj1 gangsta_users_leaves_owner
                    (after two_users empty_db) 1 2)).
  - split; reflexivity.
Defined.

(** ** One entry per join path *)

Lemma stl_entries_repeat (u : User.t) (cs : list City.t) :
  flat_map (fun c => if iexact (City.name c) "stl" then [u] else []) cs
  = repeat u
      (List.length (filter (fun c => iexact (City.name c) "stl") cs)).
Proof.
  induction cs as [|c cs IH]; simpl; [reflexivity|].
  destruct (iexact (City.name c) "stl"); simpl; now rewrite IH.
Qed.

Lemma user_entries_repeat (db : DB) (u : User.t) (l : list Address.t) :
  flat_map
    (fun a =>
       flat_map
         (fun c => if iexact (City.name c) "stl" then [u] else [])
         (filter (fun c => City.address_id c =? Address.id a) (cities db)))
    l
  = repeat u
      (List.length
         (flat_map
            (fun a =>
               map (pair a)
                 (filter (fun c => iexact (City.name c) "stl")
                    (filter (fun c => City.address_id c =? Address.id a)
                       (cities db))))
            l)).
Proof.
  induction l as [|a l IH]; simpl; [reflexivity|].
  rewrite stl_entries_repeat, IH, length_app, length_map, repeat_app.
  reflexivity.
Qed.

(** The result of [stl_objects]: each user, once per join path. *)
Lemma stl_objects_by_paths (db : DB) :
  all stl_objects db
  = flat_map (fun u => repeat u (List.length (stl_paths db u))) (users db).
Proof.
  unfold all, stl_objects, STLUserManger, stl_paths. simpl.
  unfold filter_address__city__name__iexact. simpl.
  apply flat_map_ext. intros u. apply user_entries_repeat.
Qed.

Lemma occurrences_app (k : Z) (l1 l2 : list User.t) :
  occurrences k (l1 ++ l2) = (occurrences k l1 + occurrences k l2)%nat.
Proof. unfold occurrences. now rewrite filter_app, length_app. Qed.

Lemma occurrences_repeat_same (u : User.t) (n : nat) :
  occurrences (User.id u) (repeat u n) = n.
Proof.
  unfold occurrences. induction n as [|n IH]; simpl; [reflexivity|].
  rewrite Z.eqb_refl. simpl. now rewrite IH.
Qed.

Lemma occurrences_repeat_other (k : Z) (u : User.t) (n : nat) :
  User.id u <> k -> occurrences k (repeat u n) = 0%nat.
Proof.
  intros H. apply Z.eqb_neq in H. unfold occurrences.
  induction n as [|n IH]; simpl; [reflexivity|]. now rewrite H.
Qed.

Lemma occurrences_absent (k : Z) (n : User.t -> nat) (l : list User.t) :
  ~ In k (map User.id l) ->
  occurrences k (flat_map (fun x => repeat x (n x)) l) = 0%nat.
Proof.
  induction l as [|x l IH]; simpl; intros H; [reflexivity|].
  rewrite occurrences_app, occurrences_repeat_other, IH; tauto.
Qed.

Lemma occurrences_present (n : User.t -> nat) (l : list User.t) (u : User.t) :
  NoDup (map User.id l) -> In u l ->
  occurrences (User.id u) (flat_map (fun x => repeat x (n x)) l) = n u.
Proof.
  induction l as [|x l IH]; simpl; intros Hnd Hin; [destruct Hin|].
  inversion Hnd as [|? ? Hnin Hnd']; subst. rewrite occurrences_app.
  destruct Hin as [->|Hin].
  - rewrite occurrences_repeat_same, occurrences_absent by assumption. lia.
  - rewrite occurrences_repeat_other, IH by
      (try assumption; intros E; apply Hnin; rewrite E; now apply in_map).
    reflexivity.
Qed.

(** In a consistent database a user occurs in the result of
    [stl_objects] once per join path to a matching city. *)
Lemma stl_objects_occurrences (db : DB) (u : User.t) :
  consistent db -> In u (users db) ->
  occurrences (User.id u) (all stl_objects db)
  = List.length (stl_paths db u).
Proof.
  intros [Hu _ _ _ _ _] Hin. rewrite stl_objects_by_paths.
  now apply (occurrences_present (fun x => List.length (stl_paths db x))).
Qed.

(** C8: the result of [stl_objects] is not deduplicated.  In every
    reachable database a user occurs in it once per join path, that is
    once per pair of one of their addresses and a matching city of that
    address; and there are reachable databases where a user occurs twice:
    one where the user owns two addresses with a matching city each, one
    where the user owns one address with two matching cities. *)
Theorem stl_objects_repeats_users :
  (forall db u,
      reachable db -> In u (users db) ->
      occurrences (User.id u) (all stl_objects db)
      = List.length (stl_paths db u)) /\
  (exists db u,
      reachable db /\ evaluate (all stl_objects) db = (Ok [u; u], db) /\
      users db = [u] /\
      map Address.user_id (addresses db) = [User.id u; User.id u] /\
      map City.address_id (cities db) = map Address.id (addresses db) /\
      forallb (fun c => iexact (City.name c) "stl") (cities db) = true) /\
  (exists db u a,
      reachable db /\ evaluate (all stl_objects) db = (Ok [u; u], db) /\
      users db = [u] /\ addresses db = [a] /\
      Address.user_id a = User.id u /\
      map City.address_id (cities db) = [Address.id a; Address.id a] /\
      forallb (fun c => iexact (City.name c) "stl") (cities db) = true).
Proof.
  split; [|split].
  - intros db u Hr. apply stl_objects_occurrences.
    now apply reachable_consistent.
  - exists (after two_addresses empty_db). eexists.
    split; [exact two_addresses_reachable|]. repeat split.
  - exists (after two_cities empty_db). eexists. eexists.
    split; [exact two_cities_reachable|]. repeat split.
Qed.

(** U1, who owns two addresses in "STL" and "Stl", occurs twice in the
    result of [stl_objects], once per path. *)
Lemma stl_objects_repeats_U1 :
  let db := after two_addresses empty_db in
  exists u,
    users db = [u] /\
    occurrences (User.id u) (all stl_objects db) = 2%nat /\
    List.length (stl_paths db u) = 2%nat.
Proof.
  eexists. split; [reflexivity|]. split; [|reflexivity].
  rewrite (proj1 stl_objects_repeats_users (after two_addresses empty_db)).
  - reflexivity.
  - exact two_addresses_reachable.
  - now left.
Defined.

(** ** Members of the many-to-many relation *)

Lemma gangsta_of_stl_reachable : reachable (after gangsta_of_stl empty_db).
Proof.
  exists (User.t * User.t)%type, gangsta_of_stl. split; [|reflexivity].
  unfold gangsta_of_stl, two_users. program_steps.
Qed.

(** A user is listed for an address exactly when the join table pairs
    the two keys. *)
Lemma In_gangsta_users_all (a : Z) (db : DB) (x : User.t) :
  In x (gangsta_users_all a db) <->
  In (a, User.id x) (gangsta_users db) /\ In x (users db).
Proof.
  unfold gangsta_users_all. rewrite in_flat_map. split.
  - intros [[ra ru] [Hr H]]. simpl in H.
    destruct (ra =? a) eqn:E; [|destruct H].
    apply filter_In in H. destruct H as [Hx Hid].
    apply Z.eqb_eq in E. apply Z.eqb_eq in Hid. subst. auto.
  - intros [Hr Hx]. exists (a, User.id x). split; [assumption|]. simpl.
    rewrite Z.eqb_refl. apply filter_In. split; [assumption|].
    apply Z.eqb_refl.
Qed.

Lemma In_gangstas_all (u : Z) (db : DB) (y : Address.t) :
  In y (gangstas_all u db) <->
  In (Address.id y, u) (gangsta_users db) /\ In y (addresses db).
Proof.
  unfold gangstas_all. rewrite in_flat_map. split.
  - intros [[ra ru] [Hr H]]. simpl in H.
    destruct (ru =? u) eqn:E; [|destruct H].
    apply filter_In in H. destruct H as [Hy Hid].
    apply Z.eqb_eq in E. apply Z.eqb_eq in Hid. subst. auto.
  - intros [Hr Hy]. exists (Address.id y, u). split; [assumption|]. simpl.
    rewrite Z.eqb_refl. apply filter_In. split; [assumption|].
    apply Z.eqb_refl.
Qed.

(** The relation reads the same from both sides: a user is among the
    gangsta users of an address exactly when the address is among the
    gangstas of the user. *)
Theorem gangstas_is_the_reverse_of_gangsta_users :
  forall db x y,
    In x (users db) -> In y (addresses db) ->
    (In x (gangsta_users_all (Address.id y) db) <->
     In y (gangstas_all (User.id x) db)).
Proof.
  intros db x y Hx Hy. rewrite In_gangsta_users_all, In_gangstas_all. tauto.
Qed.

(** After U2 joined the address of U1, U2 is listed for the address and
    the address is listed for U2. *)
Lemma gangstas_is_the_reverse_after_join :
  let db := after gangsta_of_stl empty_db in
  exists x y,
    map User.name (gangsta_users_all 1 db) = [User.name x] /\
    map Address.street (gangstas_all 2 db) = [Address.street y] /\
    (In x (gangsta_users_all (Address.id y) db) <->
     In y (gangstas_all (User.id x) db)).
Proof.
  exists (User.Build_t 2 "" 0 "U2" "" 0 1 2 3 0).
  exists (Address.Build_t 1 "1 Main St" 1).
  split; [reflexivity|]. split; [reflexivity|].
  apply (gangstas_is_the_reverse_of_gangsta_users
           (after gangsta_of_stl empty_db)).
  - simpl. right. now left.
  - simpl. now left.
Defined.

(** Adding an existing user to an existing address succeeds, and the
    user is listed for the address afterwards. *)
Theorem gangsta_users_add_then_listed :
  forall db a x,
    In x (users db) -> has_pk Address.id a (addresses db) = true ->
    exists db',
      gangsta_users_add a (User.id x) db = (Ok tt, db') /\
      In x (gangsta_users_all a db') /\
      users db' = users db.
Proof.
  intros db a x Hx Ha. unfold gangsta_users_add.
  destruct (existsb _ (gangsta_users db)) eqn:E.
  - exists db. split; [reflexivity|]. split; [|reflexivity].
    apply In_gangsta_users_all. split; [|assumption].
    apply existsb_exists in E. destruct E as [[ra ru] [Hr E]]. simpl in E.
    apply andb_true_iff in E. destruct E as [E1 E2].
    apply Z.eqb_eq in E1. apply Z.eqb_eq in E2. now subst.
  - eexists. split; [reflexivity|]. split; [|reflexivity].
    apply In_gangsta_users_all. simpl. split; [|assumption].
    apply in_or_app. right. now left.
Qed.

(** In the database of the two users, adding U2 to address 1 lists U2. *)
Lemma gangsta_users_add_then_listed_U2 :
  exists db',
    gangsta_users_add 1 2 (after two_users empty_db) = (Ok tt, db') /\
    In (User.Build_t 2 "" 0 "U2" "" 0 1 2 3 0) (gangsta_users_all 1 db') /\
    users db' = users (after two_users empty_db).
Proof.
  apply (gangsta_users_add_then_listed (after two_users empty_db) 1
           (User.Build_t 2 "" 0 "U2" "" 0 1 2 3 0)).
  - simpl. right. now left.
  - reflexivity.
Defined.

(** Adding the same user to the same address twice is adding once. *)
Theorem gangsta_users_add_idempotent :
  forall db a u,
    after (gangsta_users_add a u) (after (gangsta_users_add a u) db)
    = after (gangsta_users_add a u) db.
Proof.
  intros db a u. unfold after, gangsta_users_add.
  destruct (existsb _ (gangsta_users db)) eqn:E; simpl.
  - now rewrite E.
  - rewrite existsb_app. simpl. rewrite !Z.eqb_refl. simpl.
    now rewrite orb_true_r.
Qed.

(** After [remove], the user is no longer listed for the address; every
    other member of every address is listed as before. *)
Theorem gangsta_users_remove_unlists :
  forall db a u a' x,
    In x (gangsta_users_all a' (after (gangsta_users_remove a u) db)) <->
    In x (gangsta_users_all a' db) /\ ~ (a' = a /\ User.id x = u).
Proof.
  intros db a u a' x. rewrite !In_gangsta_users_all.
  unfold after, gangsta_users_remove. simpl. rewrite In_delete_where. simpl.
  rewrite andb_false_iff, !Z.eqb_neq.
  destruct (Z.eq_dec a' a), (Z.eq_dec (User.id x) u); tauto.
Qed.

Lemma NoDup_of_keys {A} (id : A -> Z) (l : list A) :
  NoDup (map id l) -> NoDup l.
Proof.
  induction l as [|x l IH]; simpl; intros H; [constructor|].
  inversion H as [|? ? Hnin Hnd]; subst. constructor; auto.
  intros Hin. apply Hnin. now apply in_map.
Qed.

(** In a reachable database the gangsta users of an address are listed
    once each. *)
Theorem gangsta_users_all_lists_each_once :
  forall db a, reachable db -> NoDup (gangsta_users_all a db).
Proof.
  intros db a Hr. apply reachable_consistent in Hr.
  destruct Hr as [Hu _ _ _ _ Hgu].
  assert (Hus : NoDup (users db)) by now apply (NoDup_of_keys User.id).
  unfold gangsta_users_all.
  induction Hgu as [|r rows Hnin Hnd IH]; simpl; [constructor|].
  apply NoDup_app; [| assumption |].
  - destruct (fst r =? a); [now apply NoDup_filter|constructor].
  - intros x H1 H2. apply Hnin.
    destruct (fst r =? a) eqn:E; [|destruct H1].
    apply filter_In in H1. destruct H1 as [_ H1].
    apply in_flat_map in H2. destruct H2 as [r' [Hr' H2]].
    destruct (fst r' =? a) eqn:E'; [|destruct H2].
    apply filter_In in H2. destruct H2 as [_ H2].
    apply Z.eqb_eq in E, E', H1, H2.
    destruct r as [ra ru], r' as [ra' ru']. simpl in *. now subst.
Qed.

(** After U2 joined the address of U1, the address lists one member. *)
Lemma gangsta_users_all_lists_each_once_after_join :
  NoDup (gangsta_users_all 1 (after gangsta_of_stl empty_db)) /\
  List.length (gangsta_users_all 1 (after gangsta_of_stl empty_db)) = 1%nat.
Proof.
  split; [|reflexivity].
  apply (gangsta_users_all_lists_each_once (after gangsta_of_stl empty_db)).
  exact gangsta_of_stl_reachable.
Defined.

(** ** Lists of entries *)

Lemma flat_map_ext_In {A B} (f g : A -> list B) (l : list A) :
  (forall x, In x l -> f x = g x) -> flat_map f l = flat_map g l.
Proof.
  induction l as [|x l IH]; simpl; intros H; [reflexivity|].
  rewrite (H x) by now left. f_equal. apply IH. intros y Hy. apply H.
  now right.
Qed.

Lemma flat_map_of_map {A B C} (f : B -> list C) (g : A -> B) (l : list A) :
  flat_map f (map g l) = flat_map (fun x => f (g x)) l.
Proof.
  induction l as [|x l IH]; simpl; [reflexivity|]. now rewrite IH.
Qed.

Lemma filter_none {A} (p : A -> bool) (l : list A) :
  (forall x, In x l -> p x = false) -> filter p l = [].
Proof.
  induction l as [|x l IH]; simpl; intros H; [reflexivity|].
  rewrite (H x) by now left. apply IH. intros y Hy. apply H. now right.
Qed.

Lemma filter_filter_implied {A} (p q : A -> bool) (l : list A) :
  (forall x, In x l -> p x = true -> q x = true) ->
  filter p (filter q l) = filter p l.
Proof.
  induction l as [|x l IH]; simpl; intros H; [reflexivity|].
  assert (IH' : filter p (filter q l) = filter p l)
    by (apply IH; intros y Hy; apply H; now right).
  destruct (q x) eqn:Eq; simpl.
  - now rewrite IH'.
  - destruct (p x) eqn:Ep; [|assumption].
    rewrite (H x) in Eq; [discriminate|now left|assumption].
Qed.

Lemma filter_repeat {A} (p : A -> bool) (x : A) (n : nat) :
  filter p (repeat x n) = if p x then repeat x n else [].
Proof.
  induction n as [|n IH]; simpl; [now destruct (p x)|].
  rewrite IH. now destruct (p x).
Qed.

Lemma filter_entries {A} (p : A -> bool) (n : A -> nat) (l : list A) :
  filter p (flat_map (fun u => repeat u (n u)) l)
  = flat_map (fun u => repeat u (n u)) (filter p l).
Proof.
  induction l as [|x l IH]; simpl; [reflexivity|].
  rewrite filter_app, filter_repeat, IH. now destruct (p x).
Qed.

Lemma ids_of_entries (n : User.t -> nat) (l : list User.t) :
  map User.id (flat_map (fun u => repeat u (n u)) l)
  = flat_map (fun u => repeat (User.id u) (n u)) l.
Proof.
  induction l as [|x l IH]; simpl; [reflexivity|].
  now rewrite map_app, map_repeat, IH.
Qed.

(** ** Join paths under writes *)

Lemma stl_paths_key (db : DB) (x y : User.t) :
  User.id x = User.id y -> stl_paths db x = stl_paths db y.
Proof. unfold stl_paths. now intros ->. Qed.

Lemma stl_paths_no_address (db : DB) (u : User.t) :
  (forall a, In a (addresses db) -> Address.user_id a <> User.id u) ->
  stl_paths db u = [].
Proof.
  intros H. unfold stl_paths. rewrite filter_none; [reflexivity|].
  intros a Ha. apply Z.eqb_neq. now apply H.
Qed.

(** Deleting user [k] leaves the join paths of every other user. *)
Lemma stl_paths_after_User_delete (db : DB) (k : Z) (u : User.t) :
  consistent db -> User.id u <> k ->
  stl_paths (after (User_delete (Some k)) db) u = stl_paths db u.
Proof.
  intros [_ Ha _ _ _ _] Hk. unfold stl_paths, after, User_delete. simpl.
  unfold delete_where. rewrite filter_filter_implied.
  2:{ intros a _ E. apply Z.eqb_eq in E. apply negb_true_iff, Z.eqb_neq.
      congruence. }
  apply flat_map_ext_In. intros a Hin. apply filter_In in Hin.
  destruct Hin as [Hin E]. apply Z.eqb_eq in E.
  rewrite (filter_filter_implied
             (fun c => City.address_id c =? Address.id a)); [reflexivity|].
  intros c _ Ec. apply Z.eqb_eq in Ec. rewrite Ec.
  apply negb_true_iff, not_true_iff_false. intros Hg.
  apply has_pk_true in Hg. destruct Hg as [a' [Hin' Hid]].
  apply filter_In in Hin'. destruct Hin' as [Hin' E'].
  apply Z.eqb_eq in E'.
  assert (a' = a) by (apply (unique_key Address.id (addresses db)); auto).
  subst a'. congruence.
Qed.

(** ** [stl_objects] under writes *)

(** Saving a new city whose name matches "stl" under an address puts the
    owner of the address into the result of [stl_objects]. *)
Theorem new_stl_city_selects_owner :
  forall db u a n,
    In u (users db) -> In a (addresses db) ->
    Address.user_id a = User.id u -> iexact n "stl" = true ->
    exists c db',
      City_save (new_city n a) db = (Ok c, db') /\
      In u (all stl_objects db').
Proof.
  intros db u a n Hu Ha Hau Hn. unfold City_save.
  destruct (fk_column _ _ db) as [aid|] eqn:E.
  - apply fk_address_Some in E. destruct E as [E _]. simpl in E.
    injection E as <-. eexists. eexists. split; [reflexivity|].
    apply In_filter_address__city__name__iexact. simpl.
    split; [assumption|]. exists a. eexists.
    split; [assumption|]. split; [assumption|].
    split; [apply save_row_In|]. simpl. auto.
  - apply fk_address_None in E. exfalso. apply E.
    exists (Address.id a), a. simpl. auto.
Qed.

(** In the database with only U2 and "Chicago", a city "Stl" saved
    under the address of U2 puts U2 into [stl_objects]. *)
Lemma new_stl_city_selects_U2 :
  exists c db',
    City_save
      (new_city "Stl" (Address.Build_t 1 "2 Lake Ave" 1))
      (after chicago_only empty_db) = (Ok c, db') /\
    In (User.Build_t 1 "" 0 "U2" "" 0 1 2 3 0) (all stl_objects db').
Proof.
  apply (new_stl_city_selects_owner (after chicago_only empty_db)).
  - simpl. now left.
  - simpl. now left.
  - reflexivity.
  - reflexivity.
Defined.

(** Inserting a city whose name does not match "stl" leaves the result
    of [stl_objects] as it was. *)
Theorem other_city_leaves_stl_objects :
  forall db o,
    CityObj.pk o = None -> iexact (CityObj.name o) "stl" = false ->
    all stl_objects (after (City_save o) db) = all stl_objects db.
Proof.
  intros db o Hpk Hn. unfold after, City_save. rewrite Hpk.
  destruct (fk_column _ _ db) as [aid|]; [|reflexivity]. simpl.
  unfold all, stl_objects, STLUserManger. simpl.
  unfold filter_address__city__name__iexact. simpl.
  unfold save_row. simpl. rewrite has_pk_next_id.
  apply flat_map_ext. intros u. apply flat_map_ext. intros a.
  rewrite filter_app, flat_map_app. simpl.
  destruct (aid =? Address.id a); simpl; [rewrite Hn|]; apply app_nil_r.
Qed.

(** A third city, "Chicago", under the address of U1 leaves the result
    for the two users as it was: U1 alone. *)
Lemma other_city_leaves_stl_objects_chicago :
  map User.name
    (all stl_objects
       (after (City_save (CityObj.Build_t None (Some 1) "Chicago"))
              (after two_users empty_db)))
  = ["U1"%string].
Proof.
  rewrite (other_city_leaves_stl_objects (after two_users empty_db));
    reflexivity.
Defined.

(** The filter does not read the join table: adding, removing or
    clearing gangsta users leaves the result of [stl_objects] as it was;
    and a gangsta user of an address in "STL" need not be in the result. *)
Theorem gangsta_users_do_not_select :
  (forall db a u,
      all stl_objects (after (gangsta_users_add a u) db) = all stl_objects db /\
      all stl_objects (after (gangsta_users_remove a u) db)
      = all stl_objects db /\
      all stl_objects (after (gangsta_users_clear a) db)
      = all stl_objects db) /\
  (exists db x,
      reachable db /\ In x (gangsta_users_all 1 db) /\
      map User.name (all stl_objects db) = ["U1"%string] /\
      User.name x = "U2"%string /\ ~ In x (all stl_objects db)).
Proof.
  split.
  - intros db a u. repeat split.
    unfold after, gangsta_users_add.
    destruct (existsb _ (gangsta_users db)); reflexivity.
  - exists (after gangsta_of_stl empty_db).
    exists (User.Build_t 2 "" 0 "U2" "" 0 1 2 3 0).
    split; [exact gangsta_of_stl_reachable|].
    split; [simpl; now left|]. split; [reflexivity|].
    split; [reflexivity|]. simpl. intros [H|[]]. discriminate H.
Qed.

(** In a consistent database, saving a user, new or existing, leaves the
    keys in the result of [stl_objects] as they were: who is selected
    depends on the addresses and the cities only. *)
Theorem User_save_leaves_stl_objects_keys :
  forall db o,
    consistent db ->
    map User.id (all stl_objects (after (User_save o) db))
    = map User.id (all stl_objects db).
Proof.
  intros db o [Hu _ _ Hau _ _].
  rewrite !stl_objects_by_paths, !ids_of_entries.
  unfold after, User_save, User_save_base.
  destruct (negb (User_ints_ok o)); simpl; [reflexivity|].
  destruct (UserObj.to_row _ o) as [row|]; simpl; [|reflexivity].
  assert (Hsame : forall u,
    stl_paths
      (Build_DB (save_row User.id row (users db)) (addresses db) (cities db)
                (gangsta_users db)) u = stl_paths db u) by reflexivity.
  rewrite (flat_map_ext _
             (fun u => repeat (User.id u) (List.length (stl_paths db u))))
    by (intros u; now rewrite Hsame).
  unfold save_row. destruct (has_pk User.id (User.id row) (users db)) eqn:E.
  - unfold update_row. rewrite flat_map_of_map. apply flat_map_ext.
    intros x. destruct (User.id x =? User.id row) eqn:Ex; [|reflexivity].
    apply Z.eqb_eq in Ex. now rewrite Ex, (stl_paths_key db row x).
  - rewrite flat_map_app. simpl. rewrite stl_paths_no_address.
    + simpl. apply app_nil_r.
    + intros a Ha Heq. apply Hau in Ha. rewrite Heq in Ha. congruence.
Qed.

(** Saving a third user, or U1 again under a new name, leaves the keys
    selected for the two users as they were. *)
Lemma User_save_leaves_stl_objects_keys_two_users :
  let db := after two_users empty_db in
  map User.id (all stl_objects (after (User_create 0 (new_user "U3" None)) db))
  = [1] /\
  map User.id
    (all stl_objects
       (after (User_save
                 (UserObj.Build_t (Some 1) "" (Some 0) "Uno" "" (Some 0)
                    (Some 1) (Some 2) (Some 3) (Some 0))) db))
  = [1].
Proof.
  split; [reflexivity|].
  rewrite (User_save_leaves_stl_objects_keys (after two_users empty_db));
    [reflexivity|].
  apply reachable_consistent. exact two_users_reachable.
Defined.

(** In a consistent database, deleting a user removes the entries of
    that user from the result of [stl_objects] and leaves every other
    entry. *)
Theorem User_delete_removes_own_entries :
  forall db k,
    consistent db ->
    all stl_objects (after (User_delete (Some k)) db)
    = filter (fun u => negb (User.id u =? k)) (all stl_objects db).
Proof.
  intros db k Hc. rewrite !stl_objects_by_paths, filter_entries.
  change (users (after (User_delete (Some k)) db))
    with (filter (fun u => negb (User.id u =? k)) (users db)).
  apply flat_map_ext_In. intros u Hin. apply filter_In in Hin.
  destruct Hin as [_ Hk]. apply negb_true_iff, Z.eqb_neq in Hk.
  now rewrite stl_paths_after_User_delete.
Qed.

(** Deleting U2 from the database of the two users leaves U1 selected;
    deleting U1 leaves nobody. *)
Lemma User_delete_removes_own_entries_two_users :
  let db := after two_users empty_db in
  map User.name (all stl_objects (after (User_delete (Some 2)) db))
  = ["U1"%string] /\
  all stl_objects (after (User_delete (Some 1)) db) = [].
Proof.
  split.
  - rewrite (User_delete_removes_own_entries (after two_users empty_db) 2);
      [reflexivity|].
    apply reachable_consistent. exact two_users_reachable.
  - reflexivity.
Defined.

(** ** Writing users *)

(** [date], [base_level], [power_level] and [update_count] have no
    default: with no key given and every integer within its column,
    [create] succeeds exactly when all four are given, and then the row
    is in the table; otherwise it raises [IntegrityError] and writes
    nothing.  [name] and [code_name] may be omitted and are then stored
    as the empty string. *)
Theorem User_create_needs_columns_without_default :
  forall now kw db,
    UserObj.kw_pk kw = None ->
    User_ints_ok (UserObj.init now kw) = true ->
    if complete kw
    then exists u db',
        User_create now kw db = (Ok u, db') /\ In u (users db') /\
        User.name u =
          match UserObj.kw_name kw with Some s => s | None => EmptyString end /\
        User.code_name u =
          match UserObj.kw_code_name kw with
          | Some s => s
          | None => EmptyString
          end
    else User_create now kw db = (Raise IntegrityError, db).
Proof.
  intros now kw db Hpk Hok. destruct (complete kw) eqn:Hc.
  - destruct (User_create_complete now kw db Hpk Hc Hok)
      as [u [db' [H1 [H2 [_ H3]]]]].
    now exists u, db'.
  - unfold User_create, User_save_base. rewrite Hok. cbn [negb].
    now rewrite to_row_init_incomplete.
Qed.

(** In the database of the two users, U3 without [name] is stored with
    the empty name, and U3 without [base_level] is refused. *)
Lemma User_create_needs_columns_two_users :
  let db := after two_users empty_db in
  (exists u db',
      User_create 0
        (UserObj.Build_kwargs None None None None None (Some 0) (Some 1)
           (Some 2) None (Some 0)) db = (Ok u, db') /\
      In u (users db') /\ User.name u = EmptyString /\
      User.code_name u = EmptyString) /\
  User_create 0
    (UserObj.Build_kwargs None None None (Some "U3"%string) None (Some 0)
       None (Some 2) None (Some 0)) db
  = (Raise IntegrityError, db).
Proof.
  split.
  - apply (User_create_needs_columns_without_default 0
             (UserObj.Build_kwargs None None None None None (Some 0) (Some 1)
                (Some 2) None (Some 0)) (after two_users empty_db));
      reflexivity.
  - apply (User_create_needs_columns_without_default 0
             (UserObj.Build_kwargs None None None (Some "U3"%string) None
                (Some 0) None (Some 2) None (Some 0))
             (after two_users empty_db)); reflexivity.
Defined.

(** A user created without a key is a new row: the table afterwards is
    the table before plus that row, under a key no row had, and the other
    tables are as they were. *)
Theorem User_create_adds_one_row :
  forall now kw db u db',
    UserObj.kw_pk kw = None ->
    User_create now kw db = (Ok u, db') ->
    Permutation (users db') (u :: users db) /\
    ~ In (User.id u) (map User.id (users db)) /\
    addresses db' = addresses db /\ cities db' = cities db /\
    gangsta_users db' = gangsta_users db.
Proof.
  intros now kw db u db' Hpk. unfold User_create, User_save_base.
  destruct (negb (User_ints_ok (UserObj.init now kw))); [discriminate|].
  replace (UserObj.pk (UserObj.init now kw)) with (@None Z)
    by (symmetry; exact Hpk).
  simpl new_pk.
  destruct (UserObj.to_row _ (UserObj.init now kw)) as [row|] eqn:E;
    [|discriminate].
  apply to_row_id in E. rewrite E, has_pk_next_id. cbn [andb].
  intros [= <- <-]. simpl.
  unfold save_row. rewrite E, has_pk_next_id.
  split; [|split; [apply next_id_fresh|repeat split]].
  apply Permutation_sym, Permutation_cons_append.
Qed.

(** U3 created in the database of the two users is a third row. *)
Lemma User_create_adds_one_row_U3 :
  exists u db',
    User_create 0 (new_user "U3" None) (after two_users empty_db)
    = (Ok u, db') /\
    Permutation (users db') (u :: users (after two_users empty_db)) /\
    User.id u = 3.
Proof.
  eexists. eexists. split; [reflexivity|]. split; [|reflexivity].
  apply (User_create_adds_one_row 0 (new_user "U3" None)
           (after two_users empty_db)); reflexivity.
Defined.

(** Saving an instance whose key is the key of a row updates that row in
    place: the keys of the table are as before, the row written is in the
    table, and the other rows are exactly those that were under other
    keys. *)
Theorem User_save_updates_in_place :
  forall db o k u db',
    UserObj.pk o = Some k -> has_pk User.id k (users db) = true ->
    User_save o db = (Ok u, db') ->
    User.id u = k /\
    map User.id (users db') = map User.id (users db) /\
    (forall x, In x (users db') <->
               x = u \/ (In x (users db) /\ User.id x <> k)) /\
    addresses db' = addresses db /\ cities db' = cities db /\
    gangsta_users db' = gangsta_users db.
Proof.
  intros db o k u db' Hpk Hk. unfold User_save, User_save_base.
  destruct (negb (User_ints_ok o)); [discriminate|].
  rewrite Hpk. simpl new_pk. cbn [andb].
  destruct (UserObj.to_row k o) as [row|] eqn:E; [|discriminate].
  apply to_row_id in E. intros [= <- <-]. simpl.
  unfold save_row. rewrite E, Hk.
  split; [reflexivity|]. split; [apply update_row_ids|].
  split; [|repeat split].
  intros x. unfold update_row. rewrite in_map_iff, E. split.
  - intros [y [Hy Hin]]. destruct (User.id y =? k) eqn:Ey.
    + left. now symmetry.
    + right. subst y. split; [assumption|]. now apply Z.eqb_neq.
  - intros [->|[Hin Hx]].
    + apply has_pk_true in Hk. destruct Hk as [y [Hin Hy]].
      exists y. split; [|assumption].
      apply Z.eqb_eq in Hy. now rewrite Hy.
    + exists x. split; [|assumption].
      apply Z.eqb_neq in Hx. now rewrite Hx.
Qed.

(** Saving U1 again under the name "Uno" keeps the two keys and leaves
    U2 as it was. *)
Lemma User_save_updates_in_place_U1 :
  let db := after two_users empty_db in
  let o := UserObj.Build_t (Some 1) "" (Some 0) "Uno" "" (Some 0) (Some 1)
             (Some 2) (Some 3) (Some 0) in
  let u := User.Build_t 1 "" 0 "Uno" "" 0 1 2 3 0 in
  let db' := after (User_save o) db in
  User_save o db = (Ok u, db') /\
  map User.name (users db') = ["Uno"; "U2"]%string /\
  User.id u = 1 /\
  map User.id (users db') = map User.id (users db) /\
  (forall x, In x (users db') <->
             x = u \/ (In x (users db) /\ User.id x <> 1)) /\
  addresses db' = addresses db /\ cities db' = cities db /\
  gangsta_users db' = gangsta_users db.
Proof.
  intros db o u db'.
  split; [vm_compute; reflexivity|]. split; [vm_compute; reflexivity|].
  apply (User_save_updates_in_place db o 1 u db').
  - reflexivity.
  - vm_compute; reflexivity.
  - vm_compute; reflexivity.
Defined.

(** ** Cities *)

(** [City.address] is required, and in every reachable database a city
    belongs to exactly one address and, through it, to exactly one
    user. *)
Theorem city_has_exactly_one_address :
  (forall db o,
      CityObj.address_id o = None ->
      City_save o db = (Raise IntegrityError, db)) /\
  (forall db c,
      reachable db -> In c (cities db) ->
      exists a u,
        In a (addresses db) /\ Address.id a = City.address_id c /\
        In u (users db) /\ User.id u = Address.user_id a /\
        (forall a', In a' (addresses db) ->
                    Address.id a' = City.address_id c -> a' = a) /\
        (forall u', In u' (users db) ->
                    User.id u' = Address.user_id a -> u' = u)).
Proof.
  split.
  - intros db o H. unfold City_save, fk_column. now rewrite H.
  - intros db c Hr Hin. apply reachable_consistent in Hr.
    destruct Hr as [Hu Ha _ Hau Hca _].
    apply Hca, has_pk_true in Hin. destruct Hin as [a [Hin Hk]].
    destruct (proj1 (has_pk_true User.id _ _) (Hau a Hin)) as [u [Hin' Hk']].
    exists a, u. repeat split; auto.
    + intros a' H1 H2. apply (unique_key Address.id (addresses db)); auto.
      congruence.
    + intros u' H1 H2. apply (unique_key User.id (users db)); auto.
      congruence.
Qed.

(** In the database of the two users, the city "Chicago" belongs to the
    address of U2. *)
Lemma city_has_exactly_one_address_chicago :
  exists a u,
    In a (addresses (after two_users empty_db)) /\ Address.id a = 2 /\
    In u (users (after two_users empty_db)) /\
    User.id u = Address.user_id a /\
    (forall a', In a' (addresses (after two_users empty_db)) ->
                Address.id a' = 2 -> a' = a) /\
    (forall u', In u' (users (after two_users empty_db)) ->
                User.id u' = Address.user_id a -> u' = u).
Proof.
  apply (proj2 city_has_exactly_one_address (after two_users empty_db)
           (City.Build_t 2 2 "Chicago")).
  - exact two_users_reachable.
  - simpl. right. now left.
Defined.
